(** * go-retry: the retry loop of [retry.go]

    A shallow embedding of package [retry] (file [retry.go]): the retryable
    error wrapper ([RetryableError], [Unwrap], [Error]) and the retry loop
    ([DoWithData], [Do]), together with the part of Go's [errors.As] the loop
    relies on.

    Go values are modelled as follows.
    - An [error] interface value is [goerror := option error]; [None] is
      [nil].
    - The dynamic types an [error] can have are the constructors of [error]:
      a leaf ([errors.New]), a wrapper with [Unwrap() error]
      ([fmt.Errorf] with one [%w]), a wrapper with [Unwrap() []error]
      ([errors.Join]) and the package's own [*retryableError].
    - [time.Duration] is [Z] (nanoseconds).
    - The loop [for { ... }] is run with fuel: one unit per iteration. *)

From Stdlib Require Import List String ZArith Lia Bool.
Import ListNotations.
Set Warnings "-register-all,-notation-for-abbreviation".

(** ** Errors *)

(** [type retryableError struct { err error }] sits inside the error values
    it wraps, hence the mutual definition. *)
Inductive error : Type :=
| errorString (s : string)
| wrapError (msg : string) (err : error)
| joinError (errs : list error)
| ptr (e : retryableError)
with retryableError : Type :=
| Build_retryableError (err : option error).

Definition goerror : Type := option error.

Definition err (e : retryableError) : goerror :=
  match e with Build_retryableError x => x end.

(** [func RetryableError(err error) error] *)
Definition RetryableError (err : goerror) : goerror :=
  match err with
  | None => None
  | Some _ => Some (ptr (Build_retryableError err))
  end.

(** [func (e *retryableError) Unwrap() error] *)
Definition Unwrap (e : retryableError) : goerror := err e.

(** The [Error() string] method of every error value; the case of
    [*retryableError] is the source's, the others are the standard
    library's. *)
Fixpoint Error (e : error) : string :=
  (match e with
  | errorString s => s
  | wrapError msg _ => msg
  | joinError errs =>
      (fix join (l : list error) : string :=
         match l with
         | [] => EmptyString
         | [x] => Error x
         | x :: l' => Error x ++ String (Ascii.ascii_of_nat 10) (join l')
         end) errs
  | ptr (Build_retryableError None) => "retryable: <nil>"
  | ptr (Build_retryableError (Some x)) => "retryable: " ++ Error x
  end)%string.

(** [errors.As(err, &rerr)] with [rerr] of type [*retryableError]: the first
    [*retryableError] met when walking the tree of [err] in pre-order, the
    error itself first, then what [Unwrap] gives.  [None] is the [false]
    answer (and [rerr] left [nil]). *)
Fixpoint as_ (e : error) : option retryableError :=
  match e with
  | errorString _ => None
  | wrapError _ x => as_ x
  | joinError errs =>
      (fix each (l : list error) : option retryableError :=
         match l with
         | [] => None
         | x :: l' =>
             match as_ x with
             | Some r => Some r
             | None => each l'
             end
         end) errs
  | ptr r => Some r
  end.

Definition As (e : goerror) : option retryableError :=
  match e with
  | None => None
  | Some x => as_ x
  end.

(** ** Retryable markers *)

(** A [*retryableError] occurs in the tree of [e]: [e] is one, or something
    [e] unwraps to has one, at any depth. *)
Inductive marked : error -> Prop :=
| marked_here : forall r, marked (ptr r)
| marked_wrap : forall msg x, marked x -> marked (wrapError msg x)
| marked_join : forall errs x, In x errs -> marked x -> marked (joinError errs).

(** [n] layers of [fmt.Errorf("...: %w", err)] around [e]. *)
Fixpoint wrapped (n : nat) (e : error) : error :=
  match n with
  | O => e
  | S n' => wrapError "wrapped" (wrapped n' e)
  end.

(** ** Induction on errors *)

(** Induction on error values, with the hypotheses for the errors under a
    join and for the cause under a retryable wrapper. *)
Section ErrorInd.

Variable P : error -> Prop.
Hypothesis P_string : forall s, P (errorString s).
Hypothesis P_wrap : forall msg x, P x -> P (wrapError msg x).
Hypothesis P_join : forall errs, Forall P errs -> P (joinError errs).
Hypothesis P_nil : P (ptr (Build_retryableError None)).
Hypothesis P_ptr : forall x, P x -> P (ptr (Build_retryableError (Some x))).

Fixpoint error_rect_nested (e : error) : P e :=
  match e with
  | errorString s => P_string s
  | wrapError msg x => P_wrap msg x (error_rect_nested x)
  | joinError errs =>
      P_join errs
        ((fix all (l : list error) : Forall P l :=
            match l with
            | [] => Forall_nil P
            | x :: l' => Forall_cons x (error_rect_nested x) (all l')
            end) errs)
  | ptr (Build_retryableError None) => P_nil
  | ptr (Build_retryableError (Some x)) => P_ptr x (error_rect_nested x)
  end.

End ErrorInd.

(** The search of [as_] through the errors of a join. *)
Definition as_each (l : list error) : option retryableError :=
  (fix each (l : list error) : option retryableError :=
     match l with
     | [] => None
     | x :: l' =>
         match as_ x with
         | Some r => Some r
         | None => each l'
         end
     end) l.

(** ** The retry loop *)

(** How the last [select] of an iteration ends: the timer's channel is taken
    ([late] is a cancellation that had fired by then and was not the case
    selected, [None] when there was none), or [ctx.Done()] is taken. *)
Inductive wait_outcome : Type :=
| TimerFirst (late : goerror)
| DoneFirst (cause : error).

Section Loop.

(** [T any], and [var emptyT T]. *)
Context {T : Type}.
Variable emptyT : T.

(** [b Backoff]: the interface is declared outside [retry.go]; any state
    type [B] with a [Next() (time.Duration, bool)] that updates it. *)
Variable B : Type.
Variable Next : B -> Z * bool * B.

(** [f RetryWithDataFunc[T]]: the operation, with a state [F] of its own.
    It is called with a context that is not done; its first argument is
    what [ctx.Err()] becomes while it runs ([None]: the context stays
    live). *)
Variable F : Type.
Variable f : goerror -> F -> T * goerror * F.

(** Whoever cancels the context, with a state [E]: [running] tells whether
    a cancellation fires during an attempt (from the call of [f] to the
    return of [b.Next]), [wait] how the race of [ctx.Done()] and the timer
    [time.NewTimer(next)] ends. *)
Variable E : Type.
Variable running : E -> goerror * E.
Variable wait : Z -> E -> wait_outcome * E.

(** What the loop did, in order. *)
Inductive event : Type :=
| Call (val : T) (err : goerror)
| Consult (next : Z) (stop : bool)
| Sleep (next : Z).

(** [ctx] is [ctx.Err()]: [None] until the context is done. *)
Record State : Type := mkState {
  ctx : goerror;
  b : B;
  op : F;
  env : E;
  log : list event
}.

(** A context is cancelled once: a later cause does not replace the
    first. *)
Definition trigger (fired : goerror) (c : goerror) : goerror :=
  match c with
  | Some _ => c
  | None => fired
  end.

Inductive step : Type :=
| Return (val : T) (err : goerror) (s : State)
| Continue (s : State).

(** The body of [for { ... }] in [DoWithData]. *)
Definition iteration (s : State) : step :=
  match ctx s with
  | Some _ => Return emptyT (ctx s) s
  | None =>
      let '(fired, env1) := running (env s) in
      let '(val, err, op1) := f fired (op s) in
      let s1 := mkState (trigger fired (ctx s)) (b s) op1 env1
                        (log s ++ [Call val err]) in
      match err with
      | None => Return val None s1
      | Some _ =>
          match As err with
          | None => Return emptyT err s1
          | Some rerr =>
              let '(next, stop, b2) := Next (b s1) in
              let s2 := mkState (ctx s1) b2 (op s1) (env s1)
                                (log s1 ++ [Consult next stop]) in
              if stop then Return emptyT (Unwrap rerr) s2
              else
                match ctx s2 with
                | Some _ => Return emptyT (ctx s2) s2
                | None =>
                    let '(o, env3) := wait next (env s2) in
                    let s3 := mkState (ctx s2) (b s2) (op s2) env3
                                      (log s2 ++ [Sleep next]) in
                    match o with
                    | DoneFirst cause =>
                        Return emptyT (Some cause)
                          (mkState (Some cause) (b s3) (op s3) (env s3)
                                   (log s3))
                    | TimerFirst late =>
                        Continue
                          (mkState (trigger late (ctx s3)) (b s3) (op s3)
                                   (env s3) (log s3))
                    end
                end
          end
      end
  end.

(** [func DoWithData[T any](ctx, b, f) (T, error)]: [ctx], [b] and the
    operation's state are in [s]; [None] when the fuel is spent before the
    loop returns. *)
Fixpoint DoWithData (fuel : nat) (s : State) : option (T * goerror * State) :=
  match fuel with
  | O => None
  | S fuel' =>
      match iteration s with
      | Return val err s' => Some (val, err, s')
      | Continue s' => DoWithData fuel' s'
      end
  end.

(** Counting in the log. *)
Definition is_call (ev : event) : bool :=
  match ev with Call _ _ => true | _ => false end.
Definition is_consult (ev : event) : bool :=
  match ev with Consult _ _ => true | _ => false end.
Definition is_sleep (ev : event) : bool :=
  match ev with Sleep _ => true | _ => false end.

Definition calls (l : list event) : nat := List.length (filter is_call l).
Definition consults (l : list event) : nat := List.length (filter is_consult l).
Definition sleeps (l : list event) : nat := List.length (filter is_sleep l).

(** The state a [step] ends in. *)
Definition state_of (st : step) : State :=
  match st with
  | Return _ _ s' => s'
  | Continue s' => s'
  end.

(** The state at the head of iteration [k] (counted from 0), when the [k]
    iterations before it all ended in [continue]. *)
Fixpoint after (k : nat) (s : State) : option State :=
  match k with
  | O => Some s
  | S k' =>
      match iteration s with
      | Return _ _ _ => None
      | Continue s' => after k' s'
      end
  end.

(** ** Describing operations and policies *)

(** The operation's state after [i] invocations under a context that stays
    live, and the policy's state after [i] calls of [Next]. *)
Fixpoint op_after (i : nat) (st : F) : F :=
  match i with
  | O => st
  | S i' => op_after i' (snd (f None st))
  end.

Fixpoint policy_after (i : nat) (p : B) : B :=
  match i with
  | O => p
  | S i' => policy_after i' (snd (Next p))
  end.

(** The [stop] answer of call number [i] (from 0) of [Next]. *)
Definition stop_at (i : nat) (p : B) : bool :=
  snd (fst (Next (policy_after i p))).

(** The policy allows at least [n] retries: its first [n] answers are
    [stop = false]. *)
Definition allows_at_least (n : nat) (p : B) : Prop :=
  forall i, i < n -> stop_at i p = false.

(** The policy allows exactly [n] retries: [stop = false] [n] times, then
    [stop = true]. *)
Definition allows_exactly (n : nat) (p : B) : Prop :=
  allows_at_least n p /\ stop_at n p = true.

(** What invocation number [i] (from 0) of the operation returns under a
    context that stays live. *)
Definition result_at (i : nat) (st : F) : T * goerror :=
  fst (f None (op_after i st)).

(** Nobody cancels during the next [n] iterations and the attempt after
    them: no cancellation fires while these attempts run, and each of these
    waits ends with the timer. *)
Fixpoint quiet (n : nat) (x : E) : Prop :=
  fst (running x) = None /\
  match n with
  | O => True
  | S n' =>
      forall d,
        fst (wait d (snd (running x))) = TimerFirst None /\
        quiet n' (snd (wait d (snd (running x))))
  end.

(** Every wait in the log lasts what the call of [b.Next] just before it
    answered, with [stop = false]; [prev] is the event before [l]. *)
Fixpoint paced (prev : option event) (l : list event) : bool :=
  match l with
  | [] => true
  | Sleep d :: l' =>
      match prev with
      | Some (Consult next false) => Z.eqb d next
      | _ => false
      end && paced (Some (Sleep d)) l'
  | ev :: l' => paced (Some ev) l'
  end.

(** The durations of the waits in a log, and the answers of the policy in
    it, in order. *)
Fixpoint waits_of (l : list event) : list Z :=
  match l with
  | [] => []
  | Sleep d :: l' => d :: waits_of l'
  | _ :: l' => waits_of l'
  end.

Fixpoint answers_of (l : list event) : list (Z * bool) :=
  match l with
  | [] => []
  | Consult next stop :: l' => (next, stop) :: answers_of l'
  | _ :: l' => answers_of l'
  end.

(** The collaborators of the loop, keeping a record of what they are asked:
    the policy keeps the answers it gave, and whoever cancels keeps the
    durations of the timers the loop started. *)
Definition recording_Next (p : B * list (Z * bool))
  : Z * bool * (B * list (Z * bool)) :=
  let '(next, stop, p') := Next (fst p) in
  (next, stop, (p', snd p ++ [(next, stop)])).

Definition recording_running (x : E * list Z) : goerror * (E * list Z) :=
  let '(fired, x') := running (fst x) in (fired, (x', snd x)).

Definition recording_wait (d : Z) (x : E * list Z)
  : wait_outcome * (E * list Z) :=
  let '(o, x') := wait d (fst x) in (o, (x', snd x ++ [d])).

End Loop.

Arguments State : clear implicits.
Arguments step : clear implicits.
Arguments event : clear implicits.
Arguments mkState {T B F E} ctx b op env log.
Arguments ctx {T B F E} s.
Arguments b {T B F E} s.
Arguments op {T B F E} s.
Arguments env {T B F E} s.
Arguments log {T B F E} s.
Arguments Return {T B F E} val err s.
Arguments Continue {T B F E} s.
Arguments state_of {T B F E} st.
Arguments iteration {T} emptyT {B} Next {F} f {E} running wait s.
Arguments DoWithData {T} emptyT {B} Next {F} f {E} running wait fuel s.
Arguments after {T} emptyT {B} Next {F} f {E} running wait k s.
Arguments op_after {T F} f i st.
Arguments policy_after {B} Next i p.
Arguments stop_at {B} Next i p.
Arguments allows_at_least {B} Next n p.
Arguments allows_exactly {B} Next n p.
Arguments result_at {T F} f i st.
Arguments quiet {E} running wait n x.
Arguments paced {T} prev l.
Arguments waits_of {T} l.
Arguments answers_of {T} l.
Arguments recording_Next {B} Next p.
Arguments recording_running {E} running x.
Arguments recording_wait {E} wait d x.

(** [func Do(ctx, b, f RetryFunc) error]: [DoWithData] at [T := any] on an
    operation that returns [nil] for its value; [any] holds nothing here but
    [nil], which is [tt]. *)
Definition Do (B : Type) (Next : B -> Z * bool * B)
    (F : Type) (f : goerror -> F -> goerror * F)
    (E : Type) (running : E -> goerror * E) (wait : Z -> E -> wait_outcome * E)
    (fuel : nat) (s : State unit B F E) : option (goerror * State unit B F E) :=
  let fWithData := fun (c : goerror) (st : F) =>
                     let '(e, st') := f c st in (tt, e, st') in
  match DoWithData tt Next fWithData running wait fuel s with
  | Some (_, e, s') => Some (e, s')
  | None => None
  end.

(** ** Concrete operations, policies and cancellations *)

Module Scenario.

Definition errX : error := errorString "X".
Definition Canceled : error := errorString "context canceled".

(** A policy of 0-duration waits that stops after [n] retries; its state is
    the number of calls of [Next] so far. *)
Definition maxRetries (n : nat) (k : nat) : Z * bool * nat :=
  (0%Z, n <=? k, S k).

(** A policy of 0-duration waits that never stops. *)
Definition unlimited (k : nat) : Z * bool * nat := (0%Z, false, S k).

(** Operations; the state is the number of invocations so far. *)
Definition always_retryable (c : goerror) (k : nat) : Z * goerror * nat :=
  (0%Z, RetryableError (Some errX), S k).

Definition fails_then (K : nat) (v : Z) (c : goerror) (k : nat)
  : Z * goerror * nat :=
  if k <? K then (0%Z, RetryableError (Some errX), S k) else (v, None, S k).

Definition always_plain (c : goerror) (k : nat) : Z * goerror * nat :=
  (7%Z, Some errX, S k).

Definition nested : error :=
  wrapError "outer"
    (joinError [errorString "other";
                wrapError "inner" (ptr (Build_retryableError (Some errX)))]).

Definition always_nested (c : goerror) (k : nat) : Z * goerror * nat :=
  (0%Z, Some nested, S k).

(** Cancellations by script: what fires during the attempts to come, and
    how the waits to come end; past the script nothing fires. *)
Definition Script : Type := list goerror * list wait_outcome.

Definition running (x : Script) : goerror * Script :=
  match fst x with
  | [] => (None, x)
  | c :: l => (c, (l, snd x))
  end.

Definition wait (d : Z) (x : Script) : wait_outcome * Script :=
  match snd x with
  | [] => (TimerFirst None, x)
  | o :: l => (o, (fst x, l))
  end.

Definition nobody : Script := ([], []).

(** A session that starts with context status [c] under script [x]. *)
Definition start (c : goerror) (x : Script) : State Z nat nat Script :=
  mkState c 0 0 x [].

Definition run (Next : nat -> Z * bool * nat)
    (f : goerror -> nat -> Z * goerror * nat)
    (fuel : nat) (s : State Z nat nat Script) :=
  DoWithData 0%Z Next f running wait fuel s.

(** Operations for [Do], which return an error only. *)
Definition do_retryable (c : goerror) (k : nat) : goerror * nat :=
  (RetryableError (Some errX), S k).


Definition do_ok (c : goerror) (k : nat) : goerror * nat := (None, S k).

Definition start_do (c : goerror) (x : Script) : State unit nat nat Script :=
  mkState c 0 0 x [].

(** Operations whose marker is wrapped twice, and marked twice. *)
Definition always_wrapped (c : goerror) (k : nat) : Z * goerror * nat :=
  (0%Z, Some (wrapped 2 (ptr (Build_retryableError (Some errX)))), S k).

Definition always_twice (c : goerror) (k : nat) : Z * goerror * nat :=
  (0%Z, RetryableError (RetryableError (Some errX)), S k).

(** Where the two sessions of the specification end. *)
Definition Failed : event Z := Call 0%Z (RetryableError (Some errX)).

Definition exhausted : State Z nat nat Script :=
  mkState None 3 3 nobody
    [Failed; Consult 0%Z false; Sleep 0%Z;
     Failed; Consult 0%Z false; Sleep 0%Z;
     Failed; Consult 0%Z true].

Definition succeeded : State Z nat nat Script :=
  mkState None 2 3 nobody
    [Failed; Consult 0%Z false; Sleep 0%Z;
     Failed; Consult 0%Z false; Sleep 0%Z;
     Call 42%Z None].

(** An operation whose cause tells the invocation it comes from: call
    number [k] (from 0) returns [k] beside [RetryableError] of [errX] under
    [k] layers. *)
Definition numbered (c : goerror) (k : nat) : Z * goerror * nat :=
  (Z.of_nat k, RetryableError (Some (wrapped k errX)), S k).

(** A policy whose waits grow, and which stops after [n] retries. *)
Definition growing (n : nat) (k : nat) : Z * bool * nat :=
  ((10 * Z.of_nat (S k))%Z, n <=? k, S k).

(** A session with a recording policy and a recording timer, and where it
    ends when the policy is [growing 2] and the operation always fails. *)
Definition recorded_start
  : State Z (nat * list (Z * bool)) nat (Script * list Z) :=
  mkState None (0, []) 0 (nobody, []) [].

Definition recorded_end
  : State Z (nat * list (Z * bool)) nat (Script * list Z) :=
  mkState None (3, [(10%Z, false); (20%Z, false); (30%Z, true)]) 3
    (nobody, [10%Z; 20%Z])
    [Failed; Consult 10%Z false; Sleep 10%Z;
     Failed; Consult 20%Z false; Sleep 20%Z;
     Failed; Consult 30%Z true].

End Scenario.

(** ** Facts about errors *)

Lemma as_join (errs : list error) : as_ (joinError errs) = as_each errs.
Proof. reflexivity. Qed.

Lemma as_each_cons (x : error) (l : list error) :
  as_each (x :: l) = match as_ x with Some r => Some r | None => as_each l end.
Proof. reflexivity. Qed.

Lemma as_each_none (l : list error) :
  as_each l = None <-> Forall (fun x => as_ x = None) l.
Proof.
  induction l as [|x l IH].
  - split; [constructor | reflexivity].
  - rewrite as_each_cons. split.
    + destruct (as_ x) eqn:Hx; [discriminate|].
      intros H. constructor; [assumption | now apply IH].
    + intros H. inversion H as [|? ? Hx Hl]; subst.
      rewrite Hx. now apply IH.
Qed.

(** [errors.As] answers [true] exactly on the marked errors. *)
Lemma as_marked (e : error) : marked e <-> as_ e <> None.
Proof.
  induction e as [s | msg x IH | errs IH | | x _] using error_rect_nested.
  - split; [inversion 1 | intros H; now contradiction H].
  - cbn [as_]. rewrite <- IH. split.
    + inversion 1; assumption.
    + now constructor.
  - rewrite as_join. split.
    + inversion 1 as [| |? y Hin Hy]; subst.
      rewrite as_each_none, Forall_forall. intros Hall.
      rewrite Forall_forall in IH.
      apply (IH y Hin) in Hy. now apply Hy, Hall.
    + intros Hne.
      assert (Hex : Exists (fun x => as_ x <> None) errs).
      { apply neg_Forall_Exists_neg.
        - intros y. destruct (as_ y); [right; discriminate | now left].
        - now rewrite <- as_each_none. }
      apply Exists_exists in Hex. destruct Hex as [y [Hin Hy]].
      rewrite Forall_forall in IH.
      apply marked_join with y; [assumption | now apply IH].
  - split; [discriminate | constructor].
  - split; [discriminate | constructor].
Qed.

Lemma As_marked (e : error) :
  marked e -> exists rerr, As (Some e) = Some rerr.
Proof.
  intros H. apply as_marked in H. cbn [As].
  destruct (as_ e) as [r|]; [now exists r | now contradiction H].
Qed.


Lemma As_RetryableError (e : error) :
  As (RetryableError (Some e)) = Some (Build_retryableError (Some e)).
Proof. reflexivity. Qed.

Lemma marked_wrapped (n : nat) (e : error) : marked e -> marked (wrapped n e).
Proof. intros H. induction n; [assumption | now constructor]. Qed.

(** No error is its own retryable wrapper. *)
Lemma cause_is_not_wrapper (e : error) :
  Some e <> RetryableError (Some e).
Proof.
  cbn [RetryableError].
  induction e as [s | msg x IH | errs IH | | x IH] using error_rect_nested;
    try discriminate.
  intros H. injection H as H. now apply IH; rewrite <- H at 1.
Qed.

(** ** Facts about the loop *)

Section LoopFacts.

Context {T : Type} (emptyT : T).
Context {B : Type} (Next : B -> Z * bool * B).
Context {F : Type} (f : goerror -> F -> T * goerror * F).
Context {E : Type} (running : E -> goerror * E).
Context (wait : Z -> E -> wait_outcome * E).

Local Notation iteration := (iteration emptyT Next f running wait).
Local Notation DoWithData := (DoWithData emptyT Next f running wait).
Local Notation after := (after emptyT Next f running wait).
Local Notation State := (State T B F E).

Implicit Types (s : State) (l : list (event T)).

(** *** Counting *)

Lemma calls_app l l' : calls (l ++ l') = calls l + calls l'.
Proof. unfold calls. now rewrite filter_app, length_app. Qed.

Lemma consults_app l l' : consults (l ++ l') = consults l + consults l'.
Proof. unfold consults. now rewrite filter_app, length_app. Qed.

Lemma sleeps_app l l' : sleeps (l ++ l') = sleeps l + sleeps l'.
Proof. unfold sleeps. now rewrite filter_app, length_app. Qed.

(** *** One iteration, branch by branch *)

Ltac enter Hc Hr Hf :=
  unfold iteration; rewrite Hc, Hr; cbn beta iota; rewrite Hf; cbn.

(** The context is done at the head of the iteration. *)
Lemma iteration_cancelled s cause :
  ctx s = Some cause -> iteration s = Return emptyT (Some cause) s.
Proof. intros Hc. unfold iteration. now rewrite Hc. Qed.

(** [err == nil]. *)
Lemma iteration_success s fired env1 val op1 :
  ctx s = None ->
  running (env s) = (fired, env1) ->
  f fired (op s) = (val, None, op1) ->
  iteration s
  = Return val None (mkState fired (b s) op1 env1 (log s ++ [Call val None])).
Proof. intros Hc Hr Hf. now enter Hc Hr Hf. Qed.


(** [stop] is true. *)
Lemma iteration_stop s fired env1 val e op1 rerr next b2 :
  ctx s = None ->
  running (env s) = (fired, env1) ->
  f fired (op s) = (val, Some e, op1) ->
  As (Some e) = Some rerr ->
  Next (b s) = (next, true, b2) ->
  iteration s
  = Return emptyT (Unwrap rerr)
      (mkState fired b2 op1 env1
         ((log s ++ [Call val (Some e)]) ++ [Consult next true])).
Proof.
  intros Hc Hr Hf Ha Hn. enter Hc Hr Hf. cbn [As] in Ha.
  now rewrite Ha, Hn.
Qed.

(** The context is done at the check before the wait. *)
Lemma iteration_done_before_wait s cause env1 val e op1 rerr next b2 :
  ctx s = None ->
  running (env s) = (Some cause, env1) ->
  f (Some cause) (op s) = (val, Some e, op1) ->
  As (Some e) = Some rerr ->
  Next (b s) = (next, false, b2) ->
  iteration s
  = Return emptyT (Some cause)
      (mkState (Some cause) b2 op1 env1
         ((log s ++ [Call val (Some e)]) ++ [Consult next false])).
Proof.
  intros Hc Hr Hf Ha Hn. enter Hc Hr Hf. cbn [As] in Ha.
  now rewrite Ha, Hn.
Qed.

(** The last [select], with its two cases. *)
Lemma iteration_wait s env1 val e op1 rerr next b2 o env3 :
  ctx s = None ->
  running (env s) = (None, env1) ->
  f None (op s) = (val, Some e, op1) ->
  As (Some e) = Some rerr ->
  Next (b s) = (next, false, b2) ->
  wait next env1 = (o, env3) ->
  let l' := ((log s ++ [Call val (Some e)]) ++ [Consult next false])
            ++ [Sleep next] in
  iteration s
  = match o with
    | DoneFirst cause =>
        Return emptyT (Some cause) (mkState (Some cause) b2 op1 env3 l')
    | TimerFirst late => Continue (mkState late b2 op1 env3 l')
    end.
Proof.
  intros Hc Hr Hf Ha Hn Hw. enter Hc Hr Hf. cbn [As] in Ha.
  rewrite Ha, Hn. cbn. rewrite Hw. now destruct o.
Qed.

(** An iteration that ends in [continue] went through every branch. *)
Lemma iteration_continue_inv s s' :
  iteration s = Continue s' ->
  exists env1 val e op1 rerr next b2 late env3,
    ctx s = None /\
    running (env s) = (None, env1) /\
    f None (op s) = (val, Some e, op1) /\
    As (Some e) = Some rerr /\
    Next (b s) = (next, false, b2) /\
    wait next env1 = (TimerFirst late, env3) /\
    s' = mkState late b2 op1 env3
           (((log s ++ [Call val (Some e)]) ++ [Consult next false])
            ++ [Sleep next]).
Proof.
  intros H. unfold iteration in H.
  destruct (ctx s) as [c|] eqn:Hc; [discriminate|].
  destruct (running (env s)) as [fired env1] eqn:Hr.
  destruct (f fired (op s)) as [[val err] op1] eqn:Hf. cbn in H.
  destruct err as [e|]; [|discriminate].
  destruct (As (Some e)) as [rerr|] eqn:Ha; [|discriminate].
  destruct (Next (b s)) as [[next stop] b2] eqn:Hn.
  destruct stop; [discriminate|]. cbn in H.
  destruct fired as [c|]; [discriminate|].
  destruct (wait next env1) as [o env3] eqn:Hw.
  destruct o as [late|c]; [|discriminate].
  injection H as <-.
  now exists env1, val, e, op1, rerr, next, b2, late, env3.
Qed.

(** *** The whole loop *)

Lemma DoWithData_return s val e s' fuel :
  iteration s = Return val e s' ->
  DoWithData (S fuel) s = Some (val, e, s').
Proof. intros H. cbn [DoWithData]. now rewrite H. Qed.

Lemma DoWithData_continue s s' fuel :
  iteration s = Continue s' ->
  DoWithData (S fuel) s = DoWithData fuel s'.
Proof. intros H. cbn [DoWithData]. now rewrite H. Qed.

(** Once the head of iteration [k] is reached, the loop goes on from
    there. *)
Lemma DoWithData_after k : forall s0 s fuel,
  after k s0 = Some s ->
  DoWithData (k + fuel) s0 = DoWithData fuel s.
Proof.
  induction k as [|k IH]; intros s0 s fuel H.
  - cbn in H. now injection H as <-.
  - cbn [after] in H.
    destruct (iteration s0) as [? ? ?|s1] eqn:Hit; [discriminate|].
    cbn [Nat.add]. rewrite (DoWithData_continue _ _ _ Hit). now apply IH.
Qed.

(** Every iteration that ends in [continue] has invoked the operation once,
    asked the policy once and waited once; it leaves the operation and the
    policy in the states their calls gave. *)
Lemma continue_counts s s' :
  iteration s = Continue s' ->
  calls (log s') = calls (log s) + 1 /\
  consults (log s') = consults (log s) + 1 /\
  sleeps (log s') = sleeps (log s) + 1.
Proof.
  intros H. apply iteration_continue_inv in H.
  destruct H as (env1 & val & e & op1 & rerr & next & b2 & late & env3 & H).
  destruct H as (_ & _ & _ & _ & _ & _ & ->). cbn [log].
  rewrite !calls_app, !consults_app, !sleeps_app. cbn. lia.
Qed.

Lemma after_counts k : forall s0 s,
  after k s0 = Some s ->
  calls (log s) = calls (log s0) + k /\
  consults (log s) = consults (log s0) + k /\
  sleeps (log s) = sleeps (log s0) + k.
Proof.
  induction k as [|k IH]; intros s0 s H.
  - cbn in H. injection H as <-. lia.
  - cbn [after] in H.
    destruct (iteration s0) as [? ? ?|s1] eqn:Hit; [discriminate|].
    apply continue_counts in Hit. apply IH in H. lia.
Qed.

(** The log only grows. *)
Lemma iteration_log s : exists l, log (state_of (iteration s)) = log s ++ l.
Proof.
  unfold iteration.
  destruct (ctx s) as [c|]; [exists []; cbn; now rewrite app_nil_r|].
  destruct (running (env s)) as [fired env1].
  destruct (f fired (op s)) as [[val err] op1]. cbn.
  destruct err as [e|]; [|now eexists].
  destruct (As (Some e)) as [rerr|]; [|now eexists].
  destruct (Next (b s)) as [[next stop] b2].
  destruct stop; cbn; [rewrite <- app_assoc; now eexists|].
  destruct fired as [c|]; cbn; [rewrite <- app_assoc; now eexists|].
  destruct (wait next env1) as [o env3].
  destruct o; cbn; rewrite <- !app_assoc; now eexists.
Qed.

Lemma DoWithData_log fuel : forall s r,
  DoWithData fuel s = Some r -> exists l, log (snd r) = log s ++ l.
Proof.
  induction fuel as [|fuel IH]; intros s r H; [discriminate|].
  cbn [DoWithData] in H.
  destruct (iteration_log s) as [l1 Hl1].
  destruct (iteration s) as [val e s1|s1]; cbn [state_of] in Hl1.
  - injection H as <-. now exists l1.
  - apply IH in H. destruct H as [l2 Hl2].
    exists (l1 ++ l2). now rewrite Hl2, Hl1, app_assoc.
Qed.

(** [K] retryable failures in a row, with a policy that allows [K] retries
    and nobody cancelling, bring the loop to the head of iteration [K]. *)
Lemma retries K : forall s,
  quiet running wait K (env s) ->
  ctx s = None ->
  (forall i, i < K -> As (snd (result_at f i (op s))) <> None) ->
  allows_at_least Next K (b s) ->
  exists sK,
    after K s = Some sK /\ ctx sK = None /\
    b sK = policy_after Next K (b s) /\ op sK = op_after f K (op s) /\
    fst (running (env sK)) = None.
Proof.
  induction K as [|K IH]; intros s Hq Hc Hop Hpol.
  - exists s. repeat split; [exact Hc | exact (proj1 Hq)].
  - destruct Hq as [Hq1 Hq2].
    destruct (running (env s)) as [fired env1] eqn:Hr.
    cbn [fst snd] in Hq1, Hq2. subst fired.
    destruct (f None (op s)) as [[val err] op1] eqn:Hf.
    assert (Ha : As err <> None).
    { specialize (Hop 0 (Nat.lt_0_succ K)).
      unfold result_at in Hop. cbn [op_after] in Hop. now rewrite Hf in Hop. }
    destruct err as [e|]; [|now contradiction Ha].
    destruct (As (Some e)) as [rerr|] eqn:Hrerr; [|now contradiction Ha].
    destruct (Next (b s)) as [[next stop] b2] eqn:Hn.
    assert (Hstop : stop = false).
    { specialize (Hpol 0 (Nat.lt_0_succ K)).
      unfold stop_at in Hpol. cbn [policy_after] in Hpol.
      now rewrite Hn in Hpol. }
    subst stop.
    destruct (Hq2 next) as [Ho Hq3].
    destruct (wait next env1) as [o env3] eqn:Hw.
    cbn [fst snd] in Ho, Hq3. subst o.
    pose proof (iteration_wait s _ _ _ _ _ _ _ _ _ Hc Hr Hf Hrerr Hn Hw)
      as Hit.
    cbv zeta iota beta in Hit.
    set (s1 := mkState None b2 op1 env3
                 (((log s ++ [Call val (Some e)]) ++ [Consult next false])
                  ++ [Sleep next])) in Hit.
    destruct (IH s1 Hq3 eq_refl) as (sK & HK1 & HK2 & HK3 & HK4 & HK5).
    + intros i Hi. specialize (Hop (S i) (proj1 (Nat.succ_lt_mono _ _) Hi)).
      unfold result_at in *. cbn [op_after] in Hop. now rewrite Hf in Hop.
    + intros i Hi. specialize (Hpol (S i) (proj1 (Nat.succ_lt_mono _ _) Hi)).
      unfold stop_at in *. cbn [policy_after] in Hpol.
      now rewrite Hn in Hpol.
    + exists sK. cbn [after]. rewrite Hit.
      cbn [policy_after op_after]. rewrite Hn, Hf. now repeat split.
Qed.

End LoopFacts.

(** ** Counting the calls of the operation and of the policy *)

(** The state after one more call is the state the next call leaves. *)
Lemma op_after_succ {T F : Type} (f : goerror -> F -> T * goerror * F)
    (i : nat) : forall st,
  op_after f (S i) st = snd (f None (op_after f i st)).
Proof.
  induction i as [|i IH]; intros st; [reflexivity|].
  change (op_after f (S (S i)) st) with (op_after f (S i) (snd (f None st))).
  now rewrite IH.
Qed.

Lemma policy_after_succ {B : Type} (Next : B -> Z * bool * B)
    (i : nat) : forall p,
  policy_after Next (S i) p = snd (Next (policy_after Next i p)).
Proof.
  induction i as [|i IH]; intros p; [reflexivity|].
  change (policy_after Next (S (S i)) p)
    with (policy_after Next (S i) (snd (Next p))).
  now rewrite IH.
Qed.

(** ** The wrapper *)

(** C6. [RetryableError(nil)] is [nil]: wrapping no error gives no error. *)
Theorem RetryableError_nil : RetryableError None = None.
Proof. reflexivity. Qed.

(** C7. For every non-nil error [e], [RetryableError(e)] is a
    [*retryableError] whose [Unwrap()] gives back exactly [e]. *)
Theorem Unwrap_RetryableError (e : error) :
  exists r : retryableError,
    RetryableError (Some e) = Some (ptr r) /\ Unwrap r = Some e.
Proof. exists (Build_retryableError (Some e)). now split. Qed.

(** ** The properties of [DoWithData] *)

Section Claims.

Context {T : Type} (emptyT : T).
Context {B : Type} (Next : B -> Z * bool * B).
Context {F : Type} (f : goerror -> F -> T * goerror * F).
Context {E : Type} (running : E -> goerror * E).
Context (wait : Z -> E -> wait_outcome * E).

Local Notation iteration := (iteration emptyT Next f running wait).
Local Notation DoWithData := (DoWithData emptyT Next f running wait).
Local Notation after := (after emptyT Next f running wait).
Local Notation State := (State T B F E).

Implicit Types (s : State) (l : list (event T)).

(** C8. When the context is live at the start and the first invocation of
    the operation returns [val] with a nil error, [DoWithData] returns
    [(val, nil)]; [b.Next] is not called (no [Consult] is logged) and the
    policy is in the state it started in.  This holds whatever happens to
    the context during the attempt. *)
Theorem first_success_skips_policy s fired env1 val op1 :
  ctx s = None ->
  running (env s) = (fired, env1) ->
  f fired (op s) = (val, None, op1) ->
  exists s',
    (forall fuel, DoWithData (S fuel) s = Some (val, None, s')) /\
    log s' = log s ++ [Call val None] /\
    consults (log s') = consults (log s) /\
    b s' = b s.
Proof.
  intros Hc Hr Hf.
  pose proof (iteration_success emptyT Next f running wait
                s fired env1 val op1 Hc Hr Hf) as Hit.
  eexists. split; [|split; [|split]].
  - intros fuel. apply DoWithData_return, Hit.
  - reflexivity.
  - cbn [log]. rewrite consults_app. cbn. lia.
  - reflexivity.
Qed.


(** C10. At any iteration: when the operation is invoked (the context was
    live at the check before the attempt), a cancellation fires while it
    runs and it still returns [val] with a nil error, [DoWithData] returns
    [(val, nil)], not the cancellation error, although the context is done
    by then. *)
Theorem success_wins_over_cancellation k s0 s cause env1 val op1 :
  after k s0 = Some s ->
  ctx s = None ->
  running (env s) = (Some cause, env1) ->
  f (Some cause) (op s) = (val, None, op1) ->
  exists s',
    (forall fuel, DoWithData (k + S fuel) s0 = Some (val, None, s')) /\
    ctx s' = Some cause /\
    calls (log s') = calls (log s0) + k + 1.
Proof.
  intros Hk Hc Hr Hf.
  pose proof (iteration_success emptyT Next f running wait
                s _ env1 val op1 Hc Hr Hf) as Hit.
  eexists. split; [|split].
  - intros fuel.
    rewrite (DoWithData_after emptyT Next f running wait k s0 s _ Hk).
    apply DoWithData_return, Hit.
  - reflexivity.
  - cbn [log]. rewrite calls_app.
    destruct (after_counts emptyT Next f running wait k s0 s Hk) as [-> _].
    reflexivity.
Qed.

(** C4. When the context is done at the head of an iteration, [DoWithData]
    returns [(emptyT, ctx.Err())] there and the state is the one at that
    head: the operation is not invoked in that iteration.  With [k = 0]
    this is a context cancelled before the first attempt (no invocation at
    all); with [k > 0] it is the check before each later attempt, after [k]
    invocations. *)
Theorem cancelled_before_attempt k s0 s cause :
  after k s0 = Some s ->
  ctx s = Some cause ->
  (forall fuel, DoWithData (k + S fuel) s0 = Some (emptyT, Some cause, s)) /\
  calls (log s) = calls (log s0) + k.
Proof.
  intros Hk Hc. split.
  - intros fuel.
    rewrite (DoWithData_after emptyT Next f running wait k s0 s _ Hk).
    apply DoWithData_return. now apply iteration_cancelled.
  - now destruct (after_counts emptyT Next f running wait k s0 s Hk).
Qed.


(** C9. When the operation returns an error [e] in whose tree a retryable
    marker occurs, at any depth, [errors.As] finds it and the iteration goes
    on to [b.Next]: the call of [Next] is logged right after the call of
    the operation and the policy moves to the state [Next] gave, in the
    iteration and so in every result of [DoWithData]. *)
Theorem marked_error_consults_policy s fired env1 val e op1 next stop b2 :
  ctx s = None ->
  running (env s) = (fired, env1) ->
  f fired (op s) = (val, Some e, op1) ->
  marked e ->
  Next (b s) = (next, stop, b2) ->
  (exists rerr, As (Some e) = Some rerr) /\
  (exists l, log (state_of (iteration s))
             = log s ++ Call val (Some e) :: Consult next stop :: l) /\
  b (state_of (iteration s)) = b2 /\
  (forall fuel r,
      DoWithData fuel s = Some r ->
      exists l, log (snd r)
                = log s ++ Call val (Some e) :: Consult next stop :: l).
Proof.
  intros Hc Hr Hf Hm Hn.
  destruct (As_marked e Hm) as [rerr Ha].
  assert (Hit : (exists l, log (state_of (iteration s))
                   = log s ++ Call val (Some e) :: Consult next stop :: l)
                /\ b (state_of (iteration s)) = b2).
  { destruct stop.
    - rewrite (iteration_stop emptyT Next f running wait
                 s fired env1 val e op1 rerr next b2 Hc Hr Hf Ha Hn).
      cbn [state_of log b]. split; [|reflexivity].
      exists []. now rewrite <- app_assoc.
    - destruct fired as [cause|].
      + rewrite (iteration_done_before_wait emptyT Next f running wait
                   s cause env1 val e op1 rerr next b2 Hc Hr Hf Ha Hn).
        cbn [state_of log b]. split; [|reflexivity].
        exists []. now rewrite <- app_assoc.
      + destruct (wait next env1) as [o env3] eqn:Hw.
        rewrite (iteration_wait emptyT Next f running wait
                   s env1 val e op1 rerr next b2 o env3
                   Hc Hr Hf Ha Hn Hw).
        cbv zeta. destruct o; cbn [state_of log b]; (split; [|reflexivity]);
          exists [Sleep next]; now rewrite <- !app_assoc. }
  destruct Hit as [[l Hl] Hb].
  split; [now exists rerr|]. split; [now exists l|]. split; [exact Hb|].
  intros [|fuel] r H; [discriminate|]. cbn [DoWithData] in H.
  destruct (iteration s) as [v' e' s1|s1]; cbn [state_of] in Hl.
  - injection H as <-. cbn [snd]. now exists l.
  - apply (DoWithData_log emptyT Next f running wait) in H.
    destruct H as [l2 Hl2]. exists (l ++ l2).
    rewrite Hl2, Hl, <- app_assoc. reflexivity.
Qed.

(** C1. With nobody cancelling during the session, an operation that returns
    [RetryableError(e)] with [e] non-nil at every invocation, and a policy
    that answers [stop = false] exactly [N] times and then [stop = true]:
    [DoWithData] returns [(emptyT, cause)] after exactly [N + 1]
    invocations, where invocation number [N + 1] of the operation, the
    last, returned [RetryableError(cause)]; what is returned is the cause,
    which is not the wrapper.  The operation is left in the state its
    [N + 1] invocations gave and the policy in the state its [N + 1]
    answers gave, the last of them being the stop. *)
Theorem exhausted_policy_returns_cause N s :
  quiet running wait N (env s) ->
  ctx s = None ->
  (forall c st, exists e, snd (fst (f c st)) = RetryableError (Some e)) ->
  allows_exactly Next N (b s) ->
  exists val cause next s' l,
    (forall fuel,
        DoWithData (S N + fuel) s = Some (emptyT, Some cause, s')) /\
    calls (log s') = calls (log s) + (N + 1) /\
    log s' = l ++ [Call val (RetryableError (Some cause)); Consult next true]
    /\ Some cause <> RetryableError (Some cause) /\
    result_at f N (op s) = (val, RetryableError (Some cause)) /\
    fst (Next (policy_after Next N (b s))) = (next, true) /\
    op s' = op_after f (S N) (op s) /\
    b s' = policy_after Next (S N) (b s).
Proof.
  intros Hq Hc Hop [Hgo Hstop].
  destruct (retries emptyT Next f running wait N s Hq Hc) as
    (sN & HN & HcN & HbN & HopN & HqN); [|exact Hgo|].
  { intros i _. unfold result_at.
    destruct (Hop None (op_after f i (op s))) as [e ->]. discriminate. }
  destruct (running (env sN)) as [fired env1] eqn:Hr.
  cbn [fst] in HqN. subst fired.
  destruct (f None (op sN)) as [[val err] op1] eqn:Hf.
  destruct (Hop None (op sN)) as [cause Hcause].
  rewrite Hf in Hcause. cbn [fst snd] in Hcause. subst err.
  destruct (Next (b sN)) as [[next stop] b2] eqn:Hn.
  assert (Hs : stop = true).
  { unfold stop_at in Hstop. rewrite <- HbN, Hn in Hstop. exact Hstop. }
  subst stop.
  pose proof (iteration_stop emptyT Next f running wait
                sN None env1 val _ op1 _ next b2
                HcN Hr Hf (As_RetryableError cause) Hn) as Hit.
  cbn [Unwrap err] in Hit.
  exists val, cause, next. eexists. exists (log sN).
  split; [|split; [|split; [|split; [|split; [|split; [|split]]]]]].
  - intros fuel. replace (S N + fuel) with (N + S fuel) by lia.
    rewrite (DoWithData_after emptyT Next f running wait N s sN _ HN).
    apply DoWithData_return, Hit.
  - cbn [log]. rewrite !calls_app.
    destruct (after_counts emptyT Next f running wait N s sN HN) as [-> _].
    cbn. lia.
  - cbn [log]. now rewrite <- app_assoc.
  - apply cause_is_not_wrapper.
  - unfold result_at. now rewrite <- HopN, Hf.
  - now rewrite <- HbN, Hn.
  - cbn [op]. now rewrite op_after_succ, <- HopN, Hf.
  - cbn [b]. now rewrite policy_after_succ, <- HbN, Hn.
Qed.


End Claims.

(** ** The scenarios of the specification *)

(** The two scenarios of the specification: a policy that stops after 3
    attempts against an operation that always fails retryably, and an
    unlimited policy against an operation that succeeds with 42 on its third
    call. *)
Example three_attempts_then_cause :
  let r := Scenario.run (Scenario.maxRetries 2) Scenario.always_retryable 10
             (Scenario.start None Scenario.nobody) in
  option_map (fun x => (fst x, calls (log (snd x)))) r
  = Some ((0%Z, Some Scenario.errX), 3).
Proof. reflexivity. Qed.

Example third_call_succeeds :
  let r := Scenario.run Scenario.unlimited (Scenario.fails_then 2 42) 10
             (Scenario.start None Scenario.nobody) in
  option_map (fun x => (fst x, calls (log (snd x)))) r
  = Some ((42%Z, None), 3).
Proof. reflexivity. Qed.

(** ** The properties at work on concrete sessions *)

(** The policy stops after 2 retries and the operation fails every time,
    with a cause that tells the invocation: 3 invocations, and the cause of
    the third is returned, not its value. *)
Lemma exhausted_policy_returns_cause_witness :
  exists val cause next s' l,
    (forall fuel,
        DoWithData 0%Z (Scenario.growing 2) Scenario.numbered
          Scenario.running Scenario.wait (3 + fuel)
          (Scenario.start None Scenario.nobody)
        = Some (0%Z, Some cause, s')) /\
    calls (log s') = calls (log (Scenario.start None Scenario.nobody)) + (2 + 1)
    /\ log s' = l ++ [Call val (RetryableError (Some cause)); Consult next true]
    /\ Some cause <> RetryableError (Some cause) /\
    result_at Scenario.numbered 2 0
    = (val, RetryableError (Some cause)) /\
    fst (Scenario.growing 2 (policy_after (Scenario.growing 2) 2 0))
    = (next, true) /\
    op s' = op_after Scenario.numbered 3 0 /\
    b s' = policy_after (Scenario.growing 2) 3 0.
Proof.
  apply (exhausted_policy_returns_cause 0%Z (Scenario.growing 2)
           Scenario.numbered Scenario.running Scenario.wait
           2 (Scenario.start None Scenario.nobody)).
  - cbn. repeat split.
  - reflexivity.
  - intros c st. exists (wrapped st Scenario.errX). reflexivity.
  - split; [|reflexivity].
    intros i Hi. destruct i as [|[|i]]; [reflexivity | reflexivity | lia].
Defined.



(** A context cancelled before the session starts: no invocation.  And a
    cancellation that fires while the first wait ends with the timer: it is
    seen at the head of the second iteration, after one invocation. *)
Lemma cancelled_before_attempt_witness :
  ((forall fuel,
       DoWithData 0%Z Scenario.unlimited Scenario.always_retryable
         Scenario.running Scenario.wait (0 + S fuel)
         (Scenario.start (Some Scenario.Canceled) Scenario.nobody)
       = Some (0%Z, Some Scenario.Canceled,
               Scenario.start (Some Scenario.Canceled) Scenario.nobody)) /\
   calls (log (Scenario.start (Some Scenario.Canceled) Scenario.nobody))
   = 0 + 0) /\
  (let s1 := mkState (Some Scenario.Canceled) 1 1 Scenario.nobody
               [Call 0%Z (RetryableError (Some Scenario.errX));
                Consult 0%Z false; Sleep 0%Z] in
   (forall fuel,
       DoWithData 0%Z Scenario.unlimited Scenario.always_retryable
         Scenario.running Scenario.wait (1 + S fuel)
         (Scenario.start None ([], [TimerFirst (Some Scenario.Canceled)]))
       = Some (0%Z, Some Scenario.Canceled, s1)) /\
   calls (log s1) = 0 + 1).
Proof.
  split.
  - apply (cancelled_before_attempt 0%Z Scenario.unlimited
             Scenario.always_retryable Scenario.running Scenario.wait 0);
      reflexivity.
  - apply (cancelled_before_attempt 0%Z Scenario.unlimited
             Scenario.always_retryable Scenario.running Scenario.wait 1);
      reflexivity.
Defined.


(** The operation returns 42 at once: the policy is where it was. *)
Lemma first_success_skips_policy_witness :
  exists s',
    (forall fuel,
        DoWithData 0%Z (Scenario.maxRetries 2) (Scenario.fails_then 0 42)
          Scenario.running Scenario.wait (S fuel)
          (Scenario.start None Scenario.nobody)
        = Some (42%Z, None, s')) /\
    log s' = [] ++ [Call 42%Z None] /\
    consults (log s') = 0 /\
    b s' = 0.
Proof.
  apply (first_success_skips_policy 0%Z (Scenario.maxRetries 2)
           (Scenario.fails_then 0 42) Scenario.running Scenario.wait
           (Scenario.start None Scenario.nobody) None Scenario.nobody 42%Z 1);
    reflexivity.
Defined.

(** The marker sits under a wrapper, a join and another wrapper: the policy
    is consulted all the same. *)
Lemma marked_error_consults_policy_witness :
  let s := Scenario.start None Scenario.nobody in
  let it := iteration 0%Z (Scenario.maxRetries 2) Scenario.always_nested
              Scenario.running Scenario.wait s in
  (exists rerr, As (Some Scenario.nested) = Some rerr) /\
  (exists l, log (state_of it)
             = [] ++ Call 0%Z (Some Scenario.nested) :: Consult 0%Z false :: l)
  /\ b (state_of it) = 1 /\
  (forall fuel r,
      DoWithData 0%Z (Scenario.maxRetries 2) Scenario.always_nested
        Scenario.running Scenario.wait fuel s = Some r ->
      exists l, log (snd r)
                = [] ++ Call 0%Z (Some Scenario.nested)
                        :: Consult 0%Z false :: l).
Proof.
  cbv zeta.
  apply (marked_error_consults_policy 0%Z (Scenario.maxRetries 2)
           Scenario.always_nested Scenario.running Scenario.wait
           (Scenario.start None Scenario.nobody) None Scenario.nobody
           0%Z Scenario.nested 1 0%Z false 1).
  - reflexivity.
  - reflexivity.
  - reflexivity.
  - apply marked_wrap.
    apply marked_join with
      (wrapError "inner" (ptr (Build_retryableError (Some Scenario.errX)))).
    + right. left. reflexivity.
    + apply marked_wrap, marked_here.
  - reflexivity.
Defined.

(** The context is cancelled while the operation runs and the operation
    returns 42 all the same: [(42, nil)] is returned. *)
Lemma success_wins_over_cancellation_witness :
  exists s',
    (forall fuel,
        DoWithData 0%Z Scenario.unlimited (Scenario.fails_then 0 42)
          Scenario.running Scenario.wait (0 + S fuel)
          (Scenario.start None ([Some Scenario.Canceled], []))
        = Some (42%Z, None, s')) /\
    ctx s' = Some Scenario.Canceled /\
    calls (log s') = 0 + 0 + 1.
Proof.
  apply (success_wins_over_cancellation 0%Z Scenario.unlimited
           (Scenario.fails_then 0 42) Scenario.running Scenario.wait
           0 (Scenario.start None ([Some Scenario.Canceled], []))
           (Scenario.start None ([Some Scenario.Canceled], []))
           Scenario.Canceled ([], []) 42%Z 1);
    reflexivity.
Defined.

(** ** More about the wrapper *)

(** Layers of wrapping do not change what [errors.As] finds. *)
Lemma as_wrapped (n : nat) (e : error) : as_ (wrapped n e) = as_ e.
Proof. induction n as [|n IH]; [reflexivity | exact IH]. Qed.

(** ** More about the loop: what every session does *)

Section Sessions.

Context {T : Type} (emptyT : T).
Context {B : Type} (Next : B -> Z * bool * B).
Context {F : Type} (f : goerror -> F -> T * goerror * F).
Context {E : Type} (running : E -> goerror * E).
Context (wait : Z -> E -> wait_outcome * E).

Local Notation iteration := (iteration emptyT Next f running wait).
Local Notation DoWithData := (DoWithData emptyT Next f running wait).
Local Notation after := (after emptyT Next f running wait).
Local Notation State := (State T B F E).

Implicit Types (s : State) (l : list (event T)).

(** Every way an iteration can go, one goal each; [H] is about
    [iteration s]. *)
Ltac branches s H :=
  unfold iteration in H;
  let c := fresh "c" in
  let fired := fresh "fired" in let env1 := fresh "env1" in
  let val0 := fresh "val0" in let e0 := fresh "e0" in
  let op1 := fresh "op1" in let rerr := fresh "rerr" in
  let next := fresh "next" in let stop := fresh "stop" in
  let b2 := fresh "b2" in let o := fresh "o" in let env3 := fresh "env3" in
  let Hc := fresh "Hc" in let Hr := fresh "Hr" in let Hf := fresh "Hf" in
  let Ha := fresh "Ha" in let Hn := fresh "Hn" in let Hw := fresh "Hw" in
  destruct (ctx s) as [c|] eqn:Hc;
  [ cbn in H
  | destruct (running (env s)) as [fired env1] eqn:Hr;
     destruct (f fired (op s)) as [[val0 [e0|]] op1] eqn:Hf; cbn in H;
     [ destruct (as_ e0) as [rerr|] eqn:Ha;
       change (as_ e0) with (As (Some e0)) in Ha;
       [ destruct (Next (b s)) as [[next [|]] b2] eqn:Hn; cbn in H;
         [| destruct fired as [c|]; cbn in H;
            [| destruct (wait next env1) as [[late|c] env3] eqn:Hw;
               cbn in H ] ]
       | ]
     | ] ].

(** What a returning iteration returns. *)
Lemma iteration_outcomes s val e s' :
  iteration s = Return val e s' ->
  (e = None /\ exists l, log s' = l ++ [Call val None]) \/
  (val = emptyT /\ e = ctx s' /\ e <> None) \/
  (val = emptyT /\ e <> None /\ As e = None /\
   exists l v, log s' = l ++ [Call v e]) \/
  (val = emptyT /\
   exists l v err rerr next,
     log s' = l ++ [Call v err; Consult next true] /\
     As err = Some rerr /\ e = Unwrap rerr).
Proof.
  intros H. branches s H; try discriminate; injection H as <- <- <-.
  - right. left. rewrite Hc. repeat split. discriminate.
  - right. right. right. split; [reflexivity|].
    exists (log s), val0, (Some e0), rerr, next. cbn [log].
    rewrite <- app_assoc. now repeat split.
  - right. left. repeat split. discriminate.
  - right. left. repeat split. discriminate.
  - right. right. left. repeat split; [discriminate | exact Ha |].
    now exists (log s), val0.
  - left. split; [reflexivity|]. now exists (log s).
Qed.


(** A session that returns does so in some iteration, reached through
    iterations that all ended in [continue]. *)
Lemma DoWithData_last fuel : forall s val e s',
  DoWithData fuel s = Some (val, e, s') ->
  exists k sk,
    k < fuel /\ after k s = Some sk /\ iteration sk = Return val e s'.
Proof.
  induction fuel as [|fuel IH]; intros s val e s' H; [discriminate|].
  cbn [DoWithData] in H.
  destruct (iteration s) as [v1 e1 s1|s1] eqn:Hit.
  - injection H as -> -> ->. exists 0, s. repeat split; [lia | exact Hit].
  - apply IH in H. destruct H as (k & sk & Hk & Hafter & Hret).
    exists (S k), sk. repeat split; [lia | | exact Hret].
    cbn [after]. now rewrite Hit.
Qed.

(** X1. Whatever the operation, the policy and the cancellations do, a
    session that returns ends in one of four ways: the value of an attempt
    that returned a nil error; [emptyT] with the context's error; [emptyT]
    with the error of the last attempt, on which [errors.As] found no
    marker; or [emptyT] with the cause held by the marker [errors.As] found
    in the error of the last attempt, right after the policy said stop. *)
Theorem DoWithData_outcomes fuel s val e s' :
  DoWithData fuel s = Some (val, e, s') ->
  (e = None /\ exists l, log s' = l ++ [Call val None]) \/
  (val = emptyT /\ e = ctx s' /\ e <> None) \/
  (val = emptyT /\ e <> None /\ As e = None /\
   exists l v, log s' = l ++ [Call v e]) \/
  (val = emptyT /\
   exists l v err rerr next,
     log s' = l ++ [Call v err; Consult next true] /\
     As err = Some rerr /\ e = Unwrap rerr).
Proof.
  intros H. apply DoWithData_last in H.
  destruct H as (k & sk & _ & _ & Hret).
  exact (iteration_outcomes sk val e s' Hret).
Qed.

(** X2. A value never comes with an error: when the returned error is not
    nil the returned value is [emptyT], also when the operation returned a
    value beside its error. *)
Theorem error_comes_with_emptyT fuel s val e s' :
  DoWithData fuel s = Some (val, e, s') ->
  e <> None ->
  val = emptyT.
Proof.
  intros H He. apply DoWithData_last in H.
  destruct H as (k & sk & _ & _ & Hret).
  destruct (iteration_outcomes sk val e s' Hret)
    as [[H0 _] | [[H0 _] | [[H0 _] | [H0 _]]]];
    [now contradiction He | exact H0 | exact H0 | exact H0].
Qed.



(** X5. When the policy says stop, the cause is returned even though the
    context was cancelled while the attempt ran: the answer of [b.Next] is
    looked at before the context is checked again. *)
Theorem exhaustion_wins_over_cancellation
    s cause env1 val e op1 rerr next b2 :
  ctx s = None ->
  running (env s) = (Some cause, env1) ->
  f (Some cause) (op s) = (val, Some e, op1) ->
  As (Some e) = Some rerr ->
  Next (b s) = (next, true, b2) ->
  exists s',
    (forall fuel, DoWithData (S fuel) s = Some (emptyT, Unwrap rerr, s')) /\
    ctx s' = Some cause /\
    sleeps (log s') = sleeps (log s).
Proof.
  intros Hc Hr Hf Ha Hn.
  pose proof (iteration_stop emptyT Next f running wait
                s _ env1 val e op1 rerr next b2 Hc Hr Hf Ha Hn) as Hit.
  eexists. split; [|split].
  - intros fuel. apply DoWithData_return, Hit.
  - reflexivity.
  - cbn [log]. rewrite !sleeps_app. cbn. lia.
Qed.

(** X6. When the marker sits under [n] layers of wrapping and the policy
    says stop, what is returned is the bare cause inside the marker: the
    layers around the marker are dropped with it. *)
Theorem exhaustion_drops_outer_wrapping
    n s fired env1 val cause op1 next b2 :
  ctx s = None ->
  running (env s) = (fired, env1) ->
  f fired (op s)
  = (val, Some (wrapped n (ptr (Build_retryableError (Some cause)))), op1) ->
  Next (b s) = (next, true, b2) ->
  exists s',
    forall fuel, DoWithData (S fuel) s = Some (emptyT, Some cause, s').
Proof.
  intros Hc Hr Hf Hn.
  assert (Ha : As (Some (wrapped n (ptr (Build_retryableError (Some cause)))))
               = Some (Build_retryableError (Some cause)))
    by (cbn [As]; now rewrite as_wrapped).
  pose proof (iteration_stop emptyT Next f running wait
                s fired env1 val _ op1 _ next b2 Hc Hr Hf Ha Hn) as Hit.
  eexists. intros fuel. apply DoWithData_return, Hit.
Qed.

(** X7. When every marker the operation returns holds a non-nil cause (as
    the markers built by [RetryableError] do), a nil error is returned only
    beside the value of an attempt that returned a nil error: the session
    never reports success without a successful attempt. *)
Theorem nil_error_only_after_success fuel s val s' :
  (forall c st rerr,
      As (snd (fst (f c st))) = Some rerr -> Unwrap rerr <> None) ->
  DoWithData fuel s = Some (val, None, s') ->
  exists l, log s' = l ++ [Call val None].
Proof.
  intros Hwf H. apply DoWithData_last in H.
  destruct H as (k & sk & _ & _ & Hret).
  branches sk Hret; try discriminate.
  - injection Hret as _ Habs _.
    specialize (Hwf fired (op sk) rerr). rewrite Hf in Hwf.
    cbn [fst snd] in Hwf. now contradiction (Hwf Ha).
  - injection Hret as <- <-. cbn [log]. now exists (log sk).
Qed.

(** X8. Only one layer is taken off: when the operation returns
    [RetryableError(RetryableError(cause))] and the policy says stop, what is
    returned is [RetryableError(cause)], which still carries a marker. *)
Theorem exhaustion_strips_one_marker
    s fired env1 val cause inner op1 next b2 :
  ctx s = None ->
  running (env s) = (fired, env1) ->
  RetryableError (Some cause) = Some inner ->
  f fired (op s) = (val, RetryableError (Some inner), op1) ->
  Next (b s) = (next, true, b2) ->
  marked inner /\
  exists s',
    forall fuel, DoWithData (S fuel) s = Some (emptyT, Some inner, s').
Proof.
  intros Hc Hr Hinner Hf Hn. cbn [RetryableError] in Hinner, Hf.
  injection Hinner as <-. split; [constructor|].
  pose proof (iteration_stop emptyT Next f running wait
                s fired env1 val _ op1 _ next b2 Hc Hr Hf
                (As_RetryableError _) Hn) as Hit.
  eexists. intros fuel. apply DoWithData_return, Hit.
Qed.

(** A part of the log that does not start with a wait is paced whatever
    came before it. *)
Lemma paced_app (l1 l2 : list (event T)) : forall prev,
  paced prev l1 = true ->
  (forall prev', paced prev' l2 = true) ->
  paced prev (l1 ++ l2) = true.
Proof.
  induction l1 as [|ev l1 IH]; intros prev H1 H2; [apply H2|].
  cbn [app]. destruct ev as [v e|next stop|d]; cbn [paced] in *.
  - now apply IH.
  - now apply IH.
  - apply andb_true_iff in H1. destruct H1 as [H1 H1'].
    rewrite H1. cbn [andb]. now apply IH.
Qed.

End Sessions.

(** ** What the policy and the timer see *)

Section Recorded.

Context {T : Type} (emptyT : T).
Context {B : Type} (Next : B -> Z * bool * B).
Context {F : Type} (f : goerror -> F -> T * goerror * F).
Context {E : Type} (running : E -> goerror * E).
Context (wait : Z -> E -> wait_outcome * E).

Local Notation NextR := (recording_Next Next).
Local Notation runningR := (recording_running running).
Local Notation waitR := (recording_wait wait).
Local Notation iteration := (iteration emptyT NextR f runningR waitR).
Local Notation DoWithData := (DoWithData emptyT NextR f runningR waitR).
Local Notation State := (State T (B * list (Z * bool)) F (E * list Z)).
Local Notation going := (map (fun d : Z => (d, false))).

Implicit Types (s : State) (l : list (event T)).

Lemma recording_running_eq x fired x1 :
  runningR x = (fired, x1) -> snd x1 = snd x.
Proof.
  unfold recording_running. destruct (running (fst x)) as [c x'].
  intros H. now injection H as _ <-.
Qed.

Lemma recording_Next_eq p next stop p1 :
  NextR p = (next, stop, p1) -> snd p1 = snd p ++ [(next, stop)].
Proof.
  unfold recording_Next. destruct (Next (fst p)) as [[d st] p'].
  intros H. now injection H as <- <- <-.
Qed.

Lemma recording_wait_eq d x o x1 :
  waitR d x = (o, x1) -> snd x1 = snd x ++ [d].
Proof.
  unfold recording_wait. destruct (wait d (fst x)) as [o' x'].
  intros H. now injection H as _ <-.
Qed.

Lemma waits_of_app l1 l2 : waits_of (l1 ++ l2) = waits_of l1 ++ waits_of l2.
Proof.
  induction l1 as [|[v e|next stop|d] l1 IH]; cbn [app waits_of];
    now rewrite ?IH.
Qed.

Lemma answers_of_app l1 l2 :
  answers_of (l1 ++ l2) = answers_of l1 ++ answers_of l2.
Proof.
  induction l1 as [|[v e|next stop|d] l1 IH]; cbn [app answers_of];
    now rewrite ?IH.
Qed.

(** One iteration: what it logs is what the policy answered and what the
    timer was started with. *)
Lemma iteration_recorded s :
  exists l tail,
    log (state_of (iteration s)) = log s ++ l /\
    (forall prev, paced prev l = true) /\
    snd (env (state_of (iteration s))) = snd (env s) ++ waits_of l /\
    snd (b (state_of (iteration s))) = snd (b s) ++ answers_of l /\
    answers_of l = going (waits_of l) ++ tail /\
    List.length tail <= 1 /\
    (forall s', iteration s = Continue s' -> tail = []).
Proof.
  assert (Hnil : forall {A} (x : list A), x = x ++ [])
    by (intros; now rewrite app_nil_r).
  destruct (iteration s) as [val e s1|s1] eqn:H; cbn [state_of];
    unfold iteration in H.
  all: destruct (ctx s) as [c|] eqn:Hc; cbn in H;
    [ try discriminate; injection H as _ _ <-;
      exists [], []; cbn; repeat split;
      first [apply Hnil | lia | (intros; discriminate)]
    | ].
  all: destruct (runningR (env s)) as [fired env1] eqn:Hr;
    apply recording_running_eq in Hr;
    destruct (f fired (op s)) as [[val0 [e0|]] op1] eqn:Hf; cbn in H.
  all: try (destruct (as_ e0) as [rerr|] eqn:Ha;
            [ destruct (NextR (b s)) as [[next [|]] b2] eqn:Hn;
              apply recording_Next_eq in Hn; cbn in H;
              [| destruct fired as [c|]; cbn in H;
                 [| destruct (waitR next env1) as [[late|c] env3] eqn:Hw;
                    apply recording_wait_eq in Hw; cbn in H ] ]
            | ]).
  all: try discriminate.
  all: first [injection H as _ _ <- | injection H as <-]; cbn [log env b];
    rewrite <- ?app_assoc; cbn [app].
  (* stop *)
  - exists [Call val0 (Some e0); Consult next true], [(next, true)].
    rewrite Hr, Hn. cbn.
    repeat split; first [apply Hnil | lia | (intros; discriminate)].
  (* done before the wait *)
  - exists [Call val0 (Some e0); Consult next false], [(next, false)].
    rewrite Hr, Hn. cbn.
    repeat split; first [apply Hnil | lia | (intros; discriminate)].
  (* done during the wait *)
  - exists [Call val0 (Some e0); Consult next false; Sleep next], [].
    rewrite Hw, Hr, Hn. cbn. rewrite Z.eqb_refl.
    repeat split; first [lia | (intros; discriminate)].
  (* not retryable *)
  - exists [Call val0 (Some e0)], [].
    rewrite Hr. cbn.
    repeat split; first [apply Hnil | lia | (intros; discriminate)].
  (* success *)
  - exists [Call val0 None], [].
    rewrite Hr. cbn.
    repeat split; first [apply Hnil | lia | (intros; discriminate)].
  (* continue *)
  - exists [Call val0 (Some e0); Consult next false; Sleep next], [].
    rewrite Hw, Hr, Hn. cbn. rewrite Z.eqb_refl.
    repeat split; lia.
Qed.

(** X9. Run the loop with a policy that keeps the answers it gives and a
    timer that keeps the durations it is started with.  In every session
    that returns, the timers were started with exactly the durations the
    policy answered, in order, one timer for each answer that was not stop;
    only the last answer of the session may have no timer after it (it was
    the stop, or the context was done at the check before the wait).  The
    log says the same. *)
Theorem waits_follow_the_policy fuel : forall s val e s',
  DoWithData fuel s = Some (val, e, s') ->
  exists W tail l,
    snd (env s') = snd (env s) ++ W /\
    snd (b s') = snd (b s) ++ going W ++ tail /\
    List.length tail <= 1 /\
    log s' = log s ++ l /\
    waits_of l = W /\
    answers_of l = going W ++ tail /\
    paced None l = true.
Proof.
  assert (G : forall s val e s',
             DoWithData fuel s = Some (val, e, s') ->
             exists l tail,
               log s' = log s ++ l /\
               (forall prev, paced prev l = true) /\
               snd (env s') = snd (env s) ++ waits_of l /\
               snd (b s') = snd (b s) ++ answers_of l /\
               answers_of l = going (waits_of l) ++ tail /\
               List.length tail <= 1).
  { induction fuel as [|fuel IH]; intros s val e s' H; [discriminate|].
    cbn [DoWithData] in H.
    destruct (iteration_recorded s)
      as (l1 & t1 & Hl1 & Hp1 & Hw1 & Ha1 & Hg1 & Ht1 & Hc1).
    destruct (iteration s) as [v1 e1 s1|s1]; cbn [state_of] in *.
    - injection H as _ _ <-. now exists l1, t1.
    - rewrite (Hc1 s1 eq_refl), app_nil_r in Hg1.
      apply IH in H.
      destruct H as (l2 & t2 & Hl2 & Hp2 & Hw2 & Ha2 & Hg2 & Ht2).
      exists (l1 ++ l2), t2.
      rewrite waits_of_app, answers_of_app, map_app.
      repeat split.
      + now rewrite Hl2, Hl1, app_assoc.
      + intros prev.
        now apply paced_app.
      + now rewrite Hw2, Hw1, app_assoc.
      + now rewrite Ha2, Ha1, app_assoc.
      + now rewrite Hg1, Hg2, app_assoc.
      + exact Ht2. }
  intros s val e s' H.
  destruct (G s val e s' H) as (l & tail & Hl & Hp & Hw & Ha & Hg & Ht).
  exists (waits_of l), tail, l. rewrite <- Hg. now repeat split.
Qed.

End Recorded.

(** ** [Do] *)

Section DoFacts.

Context {B : Type} (Next : B -> Z * bool * B).
Context {F : Type} (f : goerror -> F -> goerror * F).
Context {E : Type} (running : E -> goerror * E).
Context (wait : Z -> E -> wait_outcome * E).

Local Notation Do := (Do B Next F f E running wait).
Local Notation fWithData :=
  (fun (c : goerror) (st : F) => let '(e, st') := f c st in (tt, e, st')).
Local Notation State := (State unit B F E).

Implicit Types (s : State).

Lemma Do_return s e s' fuel :
  iteration tt Next fWithData running wait s = Return tt e s' ->
  Do (S fuel) s = Some (e, s').
Proof.
  intros H. unfold Do. cbv zeta.
  now rewrite (DoWithData_return tt Next fWithData running wait s tt e s').
Qed.

(** X10. [Do] under a context that is already done returns [ctx.Err()];
    the function is not called and the policy is not asked: the state is
    untouched. *)
Theorem Do_cancelled s cause :
  ctx s = Some cause ->
  forall fuel, Do (S fuel) s = Some (Some cause, s).
Proof.
  intros Hc fuel. apply Do_return. now apply iteration_cancelled.
Qed.

(** X11. [Do] on a function that returns nil at its first call returns
    nil after that one call, without asking the policy. *)
Theorem Do_success s fired env1 op1 :
  ctx s = None ->
  running (env s) = (fired, env1) ->
  f fired (op s) = (None, op1) ->
  exists s',
    (forall fuel, Do (S fuel) s = Some (None, s')) /\
    log s' = log s ++ [Call tt None] /\
    b s' = b s /\ op s' = op1.
Proof.
  intros Hc Hr Hf. eexists. split.
  - intros fuel. apply Do_return.
    apply (iteration_success tt Next fWithData running wait
             s fired env1 tt op1 Hc Hr).
    now rewrite Hf.
  - now repeat split.
Qed.



End DoFacts.

(** ** The text of a retryable error *)

(** X14. The text of [RetryableError(e)], for [e] not nil, is the text of
    [e] after [retryable: ]; the text for a nil cause is not produced by
    the errors [RetryableError] builds. *)
Theorem Error_RetryableError (e : error) :
  exists w,
    RetryableError (Some e) = Some w /\
    Error w = ("retryable: " ++ Error e)%string.
Proof. eexists. split; reflexivity. Qed.

(** X15. The text of every [*retryableError], with a cause or without,
    starts with [retryable: ]. *)
Theorem Error_retryable_prefix (r : retryableError) :
  String.prefix "retryable: " (Error (ptr r)) = true.
Proof.
  destruct r as [[x|]]; [|reflexivity].
  cbn. now destruct (Error x).
Qed.

(** ** The further properties at work on concrete sessions *)

Lemma DoWithData_outcomes_witness :
  let val := 0%Z in
  let e := Some Scenario.errX in
  let s' := Scenario.exhausted in
  (e = None /\ exists l, log s' = l ++ [Call val None]) \/
  (val = 0%Z /\ e = ctx s' /\ e <> None) \/
  (val = 0%Z /\ e <> None /\ As e = None /\
   exists l v, log s' = l ++ [Call v e]) \/
  (val = 0%Z /\
   exists l v err rerr next,
     log s' = l ++ [Call v err; Consult next true] /\
     As err = Some rerr /\ e = Unwrap rerr).
Proof.
  apply (DoWithData_outcomes 0%Z (Scenario.maxRetries 2)
           Scenario.always_retryable Scenario.running Scenario.wait 5
           (Scenario.start None Scenario.nobody)
           0%Z (Some Scenario.errX) Scenario.exhausted).
  vm_compute. reflexivity.
Defined.

(** The operation returns 7 beside its error; 0, the empty value, comes
    out. *)
Lemma error_comes_with_emptyT_witness :
  DoWithData 0%Z (Scenario.maxRetries 2) Scenario.always_plain
    Scenario.running Scenario.wait 1 (Scenario.start None Scenario.nobody)
  = Some (0%Z, Some Scenario.errX,
          mkState None 0 1 Scenario.nobody [Call 7%Z (Some Scenario.errX)]) /\
  0%Z = 0%Z.
Proof.
  split; [vm_compute; reflexivity|].
  apply (error_comes_with_emptyT 0%Z (Scenario.maxRetries 2)
           Scenario.always_plain Scenario.running Scenario.wait 1
           (Scenario.start None Scenario.nobody) 0%Z (Some Scenario.errX)
           (mkState None 0 1 Scenario.nobody [Call 7%Z (Some Scenario.errX)])).
  - vm_compute. reflexivity.
  - discriminate.
Defined.



Lemma exhaustion_wins_over_cancellation_witness :
  exists s',
    (forall fuel,
        DoWithData 0%Z (Scenario.maxRetries 0) Scenario.always_retryable
          Scenario.running Scenario.wait (S fuel)
          (Scenario.start None ([Some Scenario.Canceled], []))
        = Some (0%Z, Some Scenario.errX, s')) /\
    ctx s' = Some Scenario.Canceled /\
    sleeps (log s') = 0.
Proof.
  apply (exhaustion_wins_over_cancellation 0%Z (Scenario.maxRetries 0)
           Scenario.always_retryable Scenario.running Scenario.wait
           (Scenario.start None ([Some Scenario.Canceled], []))
           Scenario.Canceled ([], []) 0%Z
           (ptr (Build_retryableError (Some Scenario.errX))) 1
           (Build_retryableError (Some Scenario.errX)) 0%Z 1);
    reflexivity.
Defined.

Lemma exhaustion_drops_outer_wrapping_witness :
  exists s',
    forall fuel,
      DoWithData 0%Z (Scenario.maxRetries 0) Scenario.always_wrapped
        Scenario.running Scenario.wait (S fuel)
        (Scenario.start None Scenario.nobody)
      = Some (0%Z, Some Scenario.errX, s').
Proof.
  apply (exhaustion_drops_outer_wrapping 0%Z (Scenario.maxRetries 0)
           Scenario.always_wrapped Scenario.running Scenario.wait
           2 (Scenario.start None Scenario.nobody)
           None Scenario.nobody 0%Z Scenario.errX 1 0%Z 1);
    reflexivity.
Defined.

Lemma nil_error_only_after_success_witness :
  exists l, log Scenario.succeeded = l ++ [Call 42%Z None].
Proof.
  apply (nil_error_only_after_success 0%Z Scenario.unlimited
           (Scenario.fails_then 2 42) Scenario.running Scenario.wait 5
           (Scenario.start None Scenario.nobody) 42%Z Scenario.succeeded).
  - intros c st rerr. unfold Scenario.fails_then.
    destruct (st <? 2); cbn; [|discriminate].
    intros Hr. injection Hr as <-. discriminate.
  - vm_compute. reflexivity.
Defined.

Lemma exhaustion_strips_one_marker_witness :
  marked (ptr (Build_retryableError (Some Scenario.errX))) /\
  exists s',
    forall fuel,
      DoWithData 0%Z (Scenario.maxRetries 0) Scenario.always_twice
        Scenario.running Scenario.wait (S fuel)
        (Scenario.start None Scenario.nobody)
      = Some (0%Z, RetryableError (Some Scenario.errX), s').
Proof.
  apply (exhaustion_strips_one_marker 0%Z (Scenario.maxRetries 0)
           Scenario.always_twice Scenario.running Scenario.wait
           (Scenario.start None Scenario.nobody)
           None Scenario.nobody 0%Z Scenario.errX _ 1 0%Z 1);
    reflexivity.
Defined.

(** Waits of 10 and 20 for the answers 10 and 20; the answer 30 is the
    stop and has no wait. *)
Lemma waits_follow_the_policy_witness :
  exists W tail l,
    snd (env Scenario.recorded_end) = [] ++ W /\
    snd (b Scenario.recorded_end)
    = [] ++ map (fun d : Z => (d, false)) W ++ tail /\
    List.length tail <= 1 /\
    log Scenario.recorded_end = [] ++ l /\
    waits_of l = W /\
    answers_of l = map (fun d : Z => (d, false)) W ++ tail /\
    paced None l = true.
Proof.
  apply (waits_follow_the_policy 0%Z (Scenario.growing 2)
           Scenario.always_retryable Scenario.running Scenario.wait 5
           Scenario.recorded_start
           0%Z (Some Scenario.errX) Scenario.recorded_end).
  vm_compute. reflexivity.
Defined.

Lemma Do_cancelled_witness :
  Do nat Scenario.unlimited nat Scenario.do_retryable
    Scenario.Script Scenario.running Scenario.wait 1
    (Scenario.start_do (Some Scenario.Canceled) Scenario.nobody)
  = Some (Some Scenario.Canceled,
          Scenario.start_do (Some Scenario.Canceled) Scenario.nobody).
Proof.
  apply (Do_cancelled Scenario.unlimited Scenario.do_retryable
           Scenario.running Scenario.wait
           (Scenario.start_do (Some Scenario.Canceled) Scenario.nobody)
           Scenario.Canceled eq_refl 0).
Defined.

Lemma Do_success_witness :
  exists s',
    (forall fuel,
        Do nat Scenario.unlimited nat Scenario.do_ok
          Scenario.Script Scenario.running Scenario.wait (S fuel)
          (Scenario.start_do None Scenario.nobody)
        = Some (None, s')) /\
    log s' = [] ++ [Call tt None] /\
    b s' = 0 /\ op s' = 1.
Proof.
  apply (Do_success Scenario.unlimited Scenario.do_ok
           Scenario.running Scenario.wait
           (Scenario.start_do None Scenario.nobody) None Scenario.nobody 1);
    reflexivity.
Defined.


